(** * LGAR-Torch: configuration and the dpLGAR simulation loop

    A shallow embedding of
    - [GlobalParams.initialize_config_parameters]
      (src/lgartorch/models/physics/GlobalParams.py),
    - [LGAR.__init__] (src/src/physics/Lgar.py),
    - [dpLGAR.__init__], [dpLGAR.forward], [dpLGAR.calc_mass_balance],
      [dpLGAR.create_surficial_front], [dpLGAR.calc_num_wetting_fronts] and
      [dpLGAR.update_states] (src/lgartorch/models/dpLGAR.py).

    Scalar tensors are modelled as exact rationals [Q]; comparisons on them
    are exact.  Python exceptions are the constructors of [py_error]; an
    exception does not undo the mutations made before it was raised. *)

From Stdlib Require Import QArith Qminmax Lqa String ZArith.
From Stdlib Require SpecFloat.
From stdpp Require Import base list.

Open Scope Q_scope.

#[global] Instance Q_inhabited : Inhabited Q := populate 0.

(** Python exceptions raised by the embedded code.  [LayerException n]
    stands for an exception raised inside a method of [Layer], whose source
    is not part of the embedded files. *)
Inductive py_error :=
| IndexError
| RuntimeError
| AttributeError
| AssertionError
| TypeError
| NotImplementedError
| LayerException (n : nat).

Inductive res (A : Type) :=
| Ok (a : A)
| Err (e : py_error).
Arguments Ok {A} a.
Arguments Err {A} e.

Definition res_bind {A B} (m : res A) (f : A -> res B) : res B :=
  match m with Ok a => f a | Err e => Err e end.

Notation "x <-? m ; k" := (res_bind m (fun x => k))
  (at level 100, m at next level, right associativity).

(** ** Configuration ([cfg.data]) *)

Module Cfg.
(** The fields of [cfg.data] read by the two constructors.  A scalar
    [ponded_depth_max] is the one-element list. *)
Record data := mkData {
  layer_thickness : list Q;
  initial_psi : Q;
  ponded_depth_max : list Q;
  use_closed_form_G : bool;
  layer_soil_type : list Z;
  max_soil_types : Z;
  wilting_point_psi : Q;
  giuh_ordinates : list Q;
  timestep_unit : string;
  timestep : Q;
  endtime_unit : string
}.
End Cfg.

(** ** Cumulative layer depths *)

(** [cum[i] = cum[i - 1].clone() + thickness[i]] *)
Definition cum_step (thickness : list Q) (cum : list Q) (i : nat) : list Q :=
  <[i := cum !!! (i - 1)%nat + thickness !!! i]> cum.

(** The sum of the elements of a list. *)
Definition Qsum (l : list Q) : Q := fold_right Qplus 0 l.

(** [torch.max(torch.tensor(x))]: an empty tensor raises. *)
Definition torch_max (x : list Q) : res Q :=
  match x with
  | [] => Err RuntimeError
  | q :: qs => Ok (fold_left Qmax qs q)
  end.

(** ** [GlobalParams] *)

Record GlobalParams := mkGlobalParams {
  layer_thickness_cm : list Q;
  cum_layer_thickness : list Q;
  num_layers : nat;
  soil_depth_cm : Q;
  initial_psi : Q;
  ponded_depth_max_cm : Q;
  use_closed_form_G : bool;
  layer_soil_type : list Z;
  num_soil_types : Z;
  wilting_point_psi_cm : Q;
  giuh_ordinates : list Q;
  sft_coupled : bool
}.

(** [GlobalParams.__init__] followed by [initialize_config_parameters].
    [sft_coupled] is set to [False] by [__init__] and never assigned again.
    The tensors are abstracted here as exact rationals; the float32
    arithmetic of the cumulative depths is embedded in [layer_tensors32]
    below. *)
Definition initialize_config_parameters (d : Cfg.data) : res GlobalParams :=
  let thickness := Cfg.layer_thickness d in
  let n := length thickness in
  (* self.cum_layer_thickness[0] = self.layer_thickness_cm[0] *)
  t0 <-? (match thickness !! 0%nat with Some t => Ok t | None => Err IndexError end) ;
  let cum0 := <[0%nat := t0]> (repeat 0 n) in
  let cum := foldl (cum_step thickness) cum0 (seq 1 (n - 1)) in
  (* self.soil_depth_cm = self.cum_layer_thickness[-1] *)
  let depth := cum !!! (n - 1)%nat in
  pmax <-? torch_max (Cfg.ponded_depth_max d) ;
  Ok {| layer_thickness_cm := thickness;
        cum_layer_thickness := cum;
        num_layers := n;
        soil_depth_cm := depth;
        initial_psi := Cfg.initial_psi d;
        ponded_depth_max_cm := pmax;
        use_closed_form_G := Cfg.use_closed_form_G d;
        layer_soil_type := map (fun v => (v - 1)%Z) (Cfg.layer_soil_type d);
        num_soil_types := Cfg.max_soil_types d;
        wilting_point_psi_cm := Cfg.wilting_point_psi d;
        giuh_ordinates := Cfg.giuh_ordinates d;
        sft_coupled := false |}.

(** ** Float32 tensors *)

(** IEEE binary32 numbers, the default dtype of [torch.tensor] and
    [torch.zeros], as the axiom-free [SpecFloat] specification with 24
    mantissa bits and infinities at exponent 128. *)
Module F32.
Definition float32 := SpecFloat.spec_float.




End F32.

#[global] Instance float32_inhabited : Inhabited F32.float32 :=
  populate (SpecFloat.S754_zero false).



(** ** [LGAR] (src/src/physics/Lgar.py) *)

Module LGAR.
Record t := mkLGAR {
  layer_thickness_cm : list Q;
  cum_layer_thickness : list Q;
  num_layers : nat;
  soil_depth_cm : Q;
  initial_psi : Q;
  timestep_h : Q;
  endtime_s : Q;
  sft_coupled : bool;
  use_closed_form_G : bool
}.

(** [unit in [...]] *)
Definition unit_in (unit : string) (units : list string) : bool :=
  existsb (String.eqb unit) units.

(** The [if unit in [...]] chains; an unknown unit leaves the attribute
    unset, so [None] here. *)
Definition timestep_of_unit (unit : string) (ts : Q) : option Q :=
  if unit_in unit ["[s]"; "[sec]"; EmptyString]%string then Some (ts / 3600)
  else if unit_in unit ["[min]"; "[minute]"]%string then Some (ts / 60)
  else if unit_in unit ["[h]"; "[hr]"]%string then Some (ts / 1)
  else None.

Definition endtime_of_unit (unit : string) (ts : Q) : option Q :=
  if unit_in unit ["[s]"; "[sec]"; EmptyString]%string then Some ts
  else if unit_in unit ["[min]"; "[minute]"]%string then Some (ts * 60)
  else if unit_in unit ["[h]"; "[hr]"]%string then Some (ts * 3600)
  else if unit_in unit ["[d]"; "[day]"]%string then Some (ts * 86400)
  else None.

(** [assert self.x > 0] on an attribute that may be unset. *)
Definition assert_pos (x : option Q) : res Q :=
  match x with
  | None => Err AttributeError
  | Some v => if Qlt_le_dec 0 v then Ok v else Err AssertionError
  end.

(** [LGAR.__init__]: index 0 of both arrays is a zero pad, the layers sit
    at indices [1..n]. *)
Definition init (d : Cfg.data) : res t :=
  let thickness := Cfg.layer_thickness d in
  let n := length thickness in
  (* self.layer_thickness_cm = torch.zeros([n + 1]); [1:] = thickness *)
  let ltc := take 1 (repeat 0 (S n)) ++ thickness in
  let cum := foldl (cum_step ltc) (repeat 0 (S n)) (seq 1 n) in
  let nl := length ltc in
  let depth := cum !!! (length cum - 1)%nat in
  ts <-? assert_pos (timestep_of_unit (Cfg.timestep_unit d) (Cfg.timestep d)) ;
  (* endtime is computed from cfg.data.timestep, as in the source *)
  te <-? assert_pos (endtime_of_unit (Cfg.endtime_unit d) (Cfg.timestep d)) ;
  Ok {| layer_thickness_cm := ltc;
        cum_layer_thickness := cum;
        num_layers := nl;
        soil_depth_cm := depth;
        initial_psi := Cfg.initial_psi d;
        timestep_h := ts;
        endtime_s := te;
        sft_coupled := false;
        use_closed_form_G := false |}.
End LGAR.

(** ** The layer stack *)

(** Modelled from the spec: the methods of [Layer]
    (lgartorch/models/physics/layers/Layer.py, not among the embedded
    sources) that [dpLGAR] calls.  Following the spec (sections 4.3 and 7),
    each is a deterministic operation on the layer stack [L] that reads
    the global parameters but never writes them; it may raise, which is
    [inr n].  [W] is the type of the wetting front returned by
    [calc_wetting_front_free_drainage]. *)
Class LayerStack (L W : Type) := {
  calc_wetting_front_free_drainage : Q -> L -> (W * L) + nat;
  is_saturated : L -> (bool * L) + nat;
  calc_aet : Q -> L -> (Q * L) + nat;
  move_wetting_fronts : Q -> Q -> Q -> nat -> Q -> W -> L -> (Q * L) + nat;
  merge_wetting_fronts : L -> (unit * L) + nat;
  wetting_fronts_cross_layer_boundary : L -> (unit * L) + nat;
  wetting_front_cross_domain_boundary : L -> (Q * L) + nat;
  fix_dry_over_wet_fronts : L -> (unit * L) + nat;
  update_psi : L -> (unit * L) + nat;
  calc_dzdt : L -> (unit * L) + nat;
  mass_balance : L -> (Q * L) + nat;
  giuh_runoff : L -> (Q * L) + nat;
  frozen_factor_hydraulic_conductivity : L -> (unit * L) + nat
}.

(** The methods called on the layer stack, recorded in call order. *)
Inductive call :=
| CFrozenFactor
| CFreeDrainage
| CIsSaturated
| CCalcAet
| CMoveWettingFronts
| CMergeWettingFronts
| CCrossLayerBoundary
| CCrossDomainBoundary
| CFixDryOverWetFronts
| CUpdatePsi
| CCalcDzdt
| CMassBalance
| CGiuhRunoff.

#[global] Instance call_eq_dec : EqDecision call.
Proof. solve_decision. Defined.

(** ** The [dpLGAR] object *)

(** The fields of [cfg.models] and [cfg.data.initial_psi] read by
    [forward]. *)
Record models_cfg := mkModels {
  nsteps : nat;
  num_subcycles : nat;
  subcycle_length_h : Q;
  data_initial_psi : Q
}.

(** The attributes of a [dpLGAR] instance that [forward] reads or writes,
    with the wall clock (advanced by [time.sleep]) and the log of the
    calls made on the layer stack.  [volrunoff_timestep_cm] is [None]: its
    assignment in [__init__] is commented out and nothing assigns it. *)
Record dpLGAR (L W : Type) := mkdpLGAR {
  cfg : models_cfg;
  global_params : GlobalParams;
  top_layer : L;
  num_wetting_fronts : nat;
  wf_free_drainage_demand : option W;
  ending_volume : Q;
  ponded_water : Q;
  runoff : list Q;
  percolation : list Q;
  volrunoff_timestep_cm : option Q;
  clock : Q;
  calls : list call
}.
Arguments mkdpLGAR {L W}.
Arguments cfg {L W}.
Arguments global_params {L W}.
Arguments top_layer {L W}.
Arguments num_wetting_fronts {L W}.
Arguments wf_free_drainage_demand {L W}.
Arguments ending_volume {L W}.
Arguments ponded_water {L W}.
Arguments runoff {L W}.
Arguments percolation {L W}.
Arguments volrunoff_timestep_cm {L W}.
Arguments clock {L W}.
Arguments calls {L W}.

(** Local variables of [forward] carried from one substep to the next. *)
Record locals := mkLocals {
  previous_precip : Q;
  precip_timestep : Q;
  bottom_boundary_flux : Q;
  ending_volume_sub : Q
}.

(** Values computed by a substep before its branch on the wetting case
    (dpLGAR.py lines 142-154). *)
Record prelude (W : Type) := mkPrelude {
  precip_sub : Q;
  pet_sub : Q;
  ponded_depth_sub : Q;
  create_front : bool;
  is_top_layer_saturated : bool;
  AET_sub : Q;
  wf_demand : W
}.
Arguments mkPrelude {W}.
Arguments precip_sub {W}.
Arguments pet_sub {W}.
Arguments ponded_depth_sub {W}.
Arguments create_front {W}.
Arguments is_top_layer_saturated {W}.
Arguments AET_sub {W}.
Arguments wf_demand {W}.

(** Strict comparison of tensors, [x < y]. *)
Definition Qltb (x y : Q) : bool := negb (Qle_bool y x).

(** Lines 168-179: [(ponded_water_sub, runoff_sub, ponded_depth_sub)]. *)
Definition ponding (ponded_depth : Q) (ponded_depth_max_cm : Q) : Q * Q * Q :=
  if Qltb ponded_depth ponded_depth_max_cm
  then (ponded_depth, 0, 0)
  else (ponded_depth_max_cm, ponded_depth - ponded_depth_max_cm,
        ponded_depth_max_cm).

Section Forward.
Context {L W : Type} `{LayerStack L W}.

Local Abbreviation St := (dpLGAR L W).

Definition set_top_layer (l : L) (s : St) : St :=
  mkdpLGAR (cfg s) (global_params s) l (num_wetting_fronts s)
    (wf_free_drainage_demand s) (ending_volume s) (ponded_water s)
    (runoff s) (percolation s) (volrunoff_timestep_cm s) (clock s) (calls s).

Definition set_wf_free_drainage_demand (w : option W) (s : St) : St :=
  mkdpLGAR (cfg s) (global_params s) (top_layer s) (num_wetting_fronts s)
    w (ending_volume s) (ponded_water s)
    (runoff s) (percolation s) (volrunoff_timestep_cm s) (clock s) (calls s).

Definition set_runoff (r : list Q) (s : St) : St :=
  mkdpLGAR (cfg s) (global_params s) (top_layer s) (num_wetting_fronts s)
    (wf_free_drainage_demand s) (ending_volume s) (ponded_water s)
    r (percolation s) (volrunoff_timestep_cm s) (clock s) (calls s).

Definition set_clock (c : Q) (s : St) : St :=
  mkdpLGAR (cfg s) (global_params s) (top_layer s) (num_wetting_fronts s)
    (wf_free_drainage_demand s) (ending_volume s) (ponded_water s)
    (runoff s) (percolation s) (volrunoff_timestep_cm s) c (calls s).

Definition log_call (c : call) (s : St) : St :=
  mkdpLGAR (cfg s) (global_params s) (top_layer s) (num_wetting_fronts s)
    (wf_free_drainage_demand s) (ending_volume s) (ponded_water s)
    (runoff s) (percolation s) (volrunoff_timestep_cm s) (clock s)
    (calls s ++ [c]).

(** *** State and exception monad over the object *)

Definition M (A : Type) : Type := St -> res A * St.

Definition ret {A} (a : A) : M A := fun s => (Ok a, s).

Definition bind {A B} (m : M A) (f : A -> M B) : M B := fun s =>
  match m s with
  | (Ok a, s') => f a s'
  | (Err e, s') => (Err e, s')
  end.

Definition raise {A} (e : py_error) : M A := fun s => (Err e, s).

Definition gets {A} (f : St -> A) : M A := fun s => (Ok (f s), s).

Definition modify (f : St -> St) : M unit := fun s => (Ok tt, f s).

Local Notation "x <- m ;; k" := (bind m (fun x => k))
  (at level 100, m at next level, right associativity).
Local Notation "m ;;; k" := (bind m (fun _ => k))
  (at level 100, right associativity).

(** [self.top_layer.<method>(...)]: logged, then run on the stack. *)
Definition layer_call {A} (c : call) (op : L -> (A * L) + nat) : M A :=
  fun s =>
    let s1 := log_call c s in
    match op (top_layer s1) with
    | inl (a, l) => (Ok a, set_top_layer l s1)
    | inr n => (Err (LayerException n), s1)
    end.

Fixpoint mfold {A B} (f : A -> B -> M A) (l : list B) (a : A) : M A :=
  match l with
  | [] => ret a
  | b :: l' => bind (f a b) (mfold f l')
  end.

(** *** [dpLGAR.create_surficial_front] *)

Definition create_surficial_front (s : St) (previous_precip precip_sub : Q)
    : bool :=
  (* has_previous_precip = (previous_precip == 0.0).item() *)
  let has_previous_precip := Qeq_bool previous_precip 0 in
  (* is_it_raining = (precip_sub > 0.0).item() *)
  let is_it_raining := Qltb 0 precip_sub in
  (* is_there_ponded_water = self.ponded_water == 0 *)
  let is_there_ponded_water := Qeq_bool (ponded_water s) 0 in
  has_previous_precip && is_it_raining && is_there_ponded_water.

(** The method call, as a computation on the object. *)
Definition create_surficial_front_m (previous_precip precip_sub : Q) : M bool :=
  gets (fun s => create_surficial_front s previous_precip precip_sub).

(** *** [dpLGAR.update_states] *)

Definition update_states (i : nat) : M unit := raise NotImplementedError.

(** [self.update_states(...)]: Python checks the arity before running
    the body. *)
Definition call_update_states (args : list nat) : M unit :=
  match args with
  | [i] => update_states i
  | _ => raise TypeError
  end.

(** *** One substep of [forward] *)

(** Lines 142-154. *)
Definition substep_prelude (precip pet : Q) (lc : locals) : M (prelude W) :=
  h <- gets (fun s => subcycle_length_h (cfg s)) ;;
  let precip_sub := precip * h in
  let pet_sub := pet * h in
  pw <- gets ponded_water ;;
  let ponded_depth_sub := precip_sub + pw in
  csf <- create_surficial_front_m (previous_precip lc) precip_sub ;;
  psi_start <- gets (fun s => data_initial_psi (cfg s)) ;;
  wf <- layer_call CFreeDrainage (calc_wetting_front_free_drainage psi_start) ;;
  modify (set_wf_free_drainage_demand (Some wf)) ;;;
  sat <- layer_call CIsSaturated is_saturated ;;
  aet <- (if Qltb 0 pet_sub then layer_call CCalcAet (calc_aet pet_sub)
          else ret 0) ;;
  ret (mkPrelude precip_sub pet_sub ponded_depth_sub csf sat aet wf).

(** Lines 155-198: the branch on the wetting case and, in the one branch
    that does not raise, the movement of the fronts.  Returns the updated
    [bottom_boundary_flux]. *)
Definition wetting_branch (i : nat) (lc : locals) (p : prelude W) : M Q :=
  if create_front p then
    if is_top_layer_saturated p then raise NotImplementedError
    else raise NotImplementedError
  else if Qltb 0 (ponded_depth_sub p) then raise NotImplementedError
  else
    pmax <- gets (fun s => ponded_depth_max_cm (global_params s)) ;;
    let '(_ponded_water_sub, runoff_sub, _) := ponding (ponded_depth_sub p) pmax in
    (* self.runoff[i] = self.runoff[i] + runoff_sub *)
    r <- gets runoff ;;
    (match r !! i with
     | Some ri => modify (set_runoff (<[i := ri + runoff_sub]> r))
     | None => raise IndexError
     end) ;;;
    nwf <- gets num_wetting_fronts ;;
    h <- gets (fun s => subcycle_length_h (cfg s)) ;;
    _percolation_sub <- layer_call CMoveWettingFronts
      (move_wetting_fronts 0 (AET_sub p) (ending_volume_sub lc) nwf h (wf_demand p)) ;;
    layer_call CMergeWettingFronts merge_wetting_fronts ;;;
    layer_call CCrossLayerBoundary wetting_fronts_cross_layer_boundary ;;;
    layer_call CMergeWettingFronts merge_wetting_fronts ;;;
    flux <- layer_call CCrossDomainBoundary wetting_front_cross_domain_boundary ;;
    let bbf := bottom_boundary_flux lc + flux in
    (* percolation_sub = bottom_boundary_flux *)
    layer_call CFixDryOverWetFronts fix_dry_over_wet_fronts ;;;
    layer_call CUpdatePsi update_psi ;;;
    ret bbf.

(** Lines 199-204. *)
Definition substep_tail (lc : locals) (p : prelude W) (bbf : Q) : M locals :=
  layer_call CCalcDzdt calc_dzdt ;;;
  let pt := precip_timestep lc + precip_sub p in
  ev <- layer_call CMassBalance mass_balance ;;
  _giuh_runoff_sub <- layer_call CGiuhRunoff giuh_runoff ;;
  (* previous_precip = precip_sub *)
  let lc' := mkLocals (precip_sub p) pt bbf ev in
  (* self.update_states() *)
  call_update_states [] ;;;
  ret lc'.

Definition substep_after_prelude (i : nat) (lc : locals) (p : prelude W)
    : M locals :=
  bbf <- wetting_branch i lc p ;;
  substep_tail lc p bbf.

(** The body of [for j in range(num_subcycles)]. *)
Definition substep (i : nat) (precip pet : Q) (lc : locals) : M locals :=
  p <- substep_prelude precip pet lc ;;
  substep_after_prelude i lc p.

(** *** [dpLGAR.forward] *)

(** [x[a][b]] *)
Definition index2 (x : list (list Q)) (a b : nat) : M Q :=
  match x !! a with
  | Some row => match row !! b with Some v => ret v | None => raise IndexError end
  | None => raise IndexError
  end.

(** The body of [for i in range(nsteps)]; [sleep i] is the time that
    [time.sleep(0.001)] actually takes at the end of timestep [i]. *)
Definition timestep (sleep : nat -> Q) (precip pet : Q) (prev : Q) (i : nat)
    : M Q :=
  ev <- gets ending_volume ;;
  nsub <- gets (fun s => num_subcycles (cfg s)) ;;
  lc <- mfold (fun lc _j => substep i precip pet lc) (seq 0 nsub)
              (mkLocals prev 0 0 ev) ;;
  modify (fun s => set_clock (clock s + sleep i) s) ;;;
  ret (previous_precip lc).

Definition forward (sleep : nat -> Q) (x : list (list Q)) : M Q :=
  precip <- index2 x 0 0 ;;
  pet <- index2 x 0 1 ;;
  sft <- gets (fun s => sft_coupled (global_params s)) ;;
  (if sft then layer_call CFrozenFactor frozen_factor_hydraulic_conductivity
   else ret tt) ;;;
  n <- gets (fun s => nsteps (cfg s)) ;;
  _prev <- mfold (timestep sleep precip pet) (seq 0 n) 0 ;;
  (* return self.volrunoff_timestep_cm *)
  v <- gets volrunoff_timestep_cm ;;
  match v with Some r => ret r | None => raise AttributeError end.

End Forward.

(** The calls on the layer stack made, in this order, by a substep that
    reaches the movement of the fronts (lines 181-202). *)
Definition movement_calls : list call :=
  [CMoveWettingFronts; CMergeWettingFronts; CCrossLayerBoundary;
   CMergeWettingFronts; CCrossDomainBoundary; CFixDryOverWetFronts;
   CUpdatePsi; CCalcDzdt; CMassBalance; CGiuhRunoff].

(** ** [dpLGAR.__init__] *)

(** The steps of [dpLGAR.__init__] whose code is not among the embedded
    sources: reading the soil parameters ([read_test_params], [read_df],
    [generate_soil_metrics], lines 43-66), the [Layer] constructor (lines
    74-82, which also builds the layers below the top one, so the walk to
    [bottom_layer] at lines 85-87 is part of it) and
    [Layer.calc_num_wetting_fronts].  Each may raise, which is [inr n]. *)
Class LayerBuild (L Soil : Type) := {
  read_soil_params : Cfg.data -> Soil + nat;
  layer_new : GlobalParams -> Soil -> L + nat;
  layer_calc_num_wetting_fronts : L -> (nat * L) + nat
}.

(** A call into [Layer]: its exception propagates. *)
Definition of_layer {A} (x : A + nat) : res A :=
  match x with inl a => Ok a | inr n => Err (LayerException n) end.

Section Init.
Context {L W Soil : Type} `{LayerStack L W} `{LayerBuild L Soil}.

(** [dpLGAR.calc_num_wetting_fronts]: [self.top_layer.calc_num_wetting_fronts()] *)
Definition calc_num_wetting_fronts (top : L) : res (nat * L) :=
  of_layer (layer_calc_num_wetting_fronts top).

(** [dpLGAR.calc_mass_balance]: [self.top_layer.mass_balance()] *)
Definition calc_mass_balance (top : L) : res (Q * L) :=
  of_layer (mass_balance top).

(** [dpLGAR.__init__] for a configuration with [cfg.models.nsteps =
    n_steps], [num_subcycles = nsub] and [subcycle_length_h = h];
    [clock0] is the wall clock at construction.  The attributes that
    [forward] never reads ([precip_timestep_cm], [giuh_runoff], ...) are
    left out; [volrunoff_timestep_cm] is not assigned (line 105 is a
    comment). *)
Definition dpLGAR_init (n_steps nsub : nat) (h : Q) (d : Cfg.data) (clock0 : Q)
    : res (dpLGAR L W) :=
  soil <-? of_layer (read_soil_params d) ;
  (* self.global_params = GlobalParams(cfg) *)
  gp <-? initialize_config_parameters d ;
  top <-? of_layer (layer_new gp soil) ;
  (* self.num_wetting_fronts = self.calc_num_wetting_fronts() *)
  p <-? calc_num_wetting_fronts top ;
  let '(nwf, top1) := p in
  (* self.starting_volume = self.calc_mass_balance() *)
  q <-? calc_mass_balance top1 ;
  let '(starting_volume, top2) := q in
  Ok (mkdpLGAR (mkModels n_steps nsub h (Cfg.initial_psi d)) gp top2 nwf
        (* self.wf_free_drainage_demand = None *)
        None
        (* self.ending_volume = self.starting_volume.clone() *)
        starting_volume
        (* self.ponded_water = torch.tensor(0.0) *)
        0
        (* self.runoff, self.percolation = torch.zeros([nsteps]) *)
        (repeat 0 n_steps) (repeat 0 n_steps)
        None clock0 []).

End Init.

(** ** Concrete instances *)

Module Sample.
(** A layer stack whose methods all return normally. *)
#[global] Instance unit_stack : LayerStack unit unit := {
  calc_wetting_front_free_drainage := fun _ l => inl (tt, l);
  is_saturated := fun l => inl (false, l);
  calc_aet := fun _ l => inl (0, l);
  move_wetting_fronts := fun _ _ _ _ _ _ l => inl (0, l);
  merge_wetting_fronts := fun l => inl (tt, l);
  wetting_fronts_cross_layer_boundary := fun l => inl (tt, l);
  wetting_front_cross_domain_boundary := fun l => inl (0, l);
  fix_dry_over_wet_fronts := fun l => inl (tt, l);
  update_psi := fun l => inl (tt, l);
  calc_dzdt := fun l => inl (tt, l);
  mass_balance := fun l => inl (0, l);
  giuh_runoff := fun l => inl (0, l);
  frozen_factor_hydraulic_conductivity := fun l => inl (tt, l)
}.

Definition data (thickness : list Q) (giuh : list Q) : Cfg.data :=
  Cfg.mkData thickness (-1) [2] false [1%Z; 2%Z] 12%Z (-15495) giuh
    "[h]"%string 1 "[h]"%string.

Definition gp (thickness : list Q) : GlobalParams :=
  match initialize_config_parameters (data thickness [1]) with
  | Ok g => g
  | Err _ => mkGlobalParams [] [] 0 0 0 0 false [] 0 0 [] false
  end.

(** A freshly constructed object with [nsteps] timesteps of [nsub]
    substeps of one hour. *)
Definition state (nsteps nsub : nat) : dpLGAR unit unit :=
  mkdpLGAR (mkModels nsteps nsub 1 (-1)) (gp [10; 20]) tt 2 None 0 0
    (repeat 0 nsteps) (repeat 0 nsteps) None 0 [].

Definition no_sleep : nat -> Q := fun _ => 0.

(** Soil parameters and layer constructor that succeed, with one wetting
    front. *)
#[global] Instance unit_build : LayerBuild unit unit := {
  read_soil_params := fun _ => inl tt;
  layer_new := fun _ _ => inl tt;
  layer_calc_num_wetting_fronts := fun l => inl (1%nat, l)
}.

(** The object built by [dpLGAR.__init__] for one timestep of one
    one-hour substep and layers of 10 and 20 cm. *)
Definition fresh : dpLGAR unit unit :=
  match dpLGAR_init 1 1 1 (data [10; 20] [1]) 0 with
  | Ok s => s
  | Err _ => state 1 1
  end.
End Sample.

(** ** Observations of computations *)

Section Observations.
Context {L W : Type}.

Local Abbreviation St := (dpLGAR L W).

(** [m] leaves the observation [f] of the object unchanged. *)
Definition preserves {B A} (f : St -> B) (m : @M L W A) : Prop :=
  forall s, f (snd (m s)) = f s.

(** [m] neither reads nor writes the wall clock. *)
Definition clock_free {A} (m : @M L W A) : Prop :=
  forall s c, m (set_clock c s) = (fst (m s), set_clock c (snd (m s))).

(** [m2] run on the object with its clock set to [c] gives the result of
    [m1] and its final object up to the clock. *)
Definition clock_shift {A} (m1 m2 : @M L W A) : Prop :=
  forall s c, exists c',
    m2 (set_clock c s) = (fst (m1 s), set_clock c' (snd (m1 s))).

End Observations.

(** ** Frame and clock lemmas for the monad *)

Section Frame.
Context {L W : Type} `{LayerStack L W}.

Local Abbreviation St := (dpLGAR L W).


Lemma ret_pres {B A} (f : St -> B) (a : A) : preserves f (ret a).
Proof. intros s. reflexivity. Qed.

Lemma raise_pres {B A} (f : St -> B) e : preserves f (@raise L W A e).
Proof. intros s. reflexivity. Qed.

Lemma gets_pres {B A} (f : St -> B) (g : St -> A) : preserves f (gets g).
Proof. intros s. reflexivity. Qed.

Lemma modify_pres {B} (f : St -> B) g :
  (forall s, f (g s) = f s) -> preserves f (modify g).
Proof. intros Hg s. apply Hg. Qed.

Lemma layer_call_pres {B A} (f : St -> B) c (op : L -> (A * L) + nat) :
  (forall s l c', f (set_top_layer l (log_call c' s)) = f s) ->
  (forall s c', f (log_call c' s) = f s) ->
  preserves f (layer_call c op).
Proof.
  intros Hset Hlog s. unfold layer_call.
  destruct (op _) as [[a l]|n]; simpl; auto.
Qed.

Lemma bind_pres {B A C} (f : St -> B) (m : @M L W A) (k : A -> @M L W C) :
  preserves f m -> (forall a, preserves f (k a)) -> preserves f (bind m k).
Proof.
  intros Hm Hk s. unfold bind. specialize (Hm s).
  destruct (m s) as [[a|e] s'] eqn:E; simpl in *.
  - rewrite Hk. exact Hm.
  - exact Hm.
Qed.

Lemma mfold_pres {B A C} (f : St -> B) (g : A -> C -> @M L W A) l :
  (forall a c, preserves f (g a c)) -> forall a, preserves f (mfold g l a).
Proof.
  intros Hg. induction l as [|c l IH]; intros a; simpl.
  - apply ret_pres.
  - apply bind_pres; auto.
Qed.


Lemma ret_clock {A} (a : A) : clock_free (@ret L W A a).
Proof. intros s c. reflexivity. Qed.

Lemma raise_clock {A} e : @clock_free L W _ (@raise L W A e).
Proof. intros s c. reflexivity. Qed.

Lemma gets_clock {A} (g : St -> A) :
  (forall s c, g (set_clock c s) = g s) -> @clock_free L W _ (gets g).
Proof. intros Hg s c. unfold gets. rewrite Hg. reflexivity. Qed.

Lemma modify_clock (g : St -> St) :
  (forall s c, g (set_clock c s) = set_clock c (g s)) -> @clock_free L W _ (modify g).
Proof. intros Hg s c. unfold modify. rewrite Hg. reflexivity. Qed.

Lemma layer_call_clock {A} c (op : L -> (A * L) + nat) :
  @clock_free L W _ (layer_call c op).
Proof.
  intros s cl. unfold layer_call. destruct s; simpl.
  destruct (op _) as [[a l]|n]; reflexivity.
Qed.

Lemma bind_clock {A C} (m : @M L W A) (k : A -> @M L W C) :
  clock_free m -> (forall a, @clock_free L W _ (k a)) -> @clock_free L W _ (bind m k).
Proof.
  intros Hm Hk s c. unfold bind. rewrite Hm.
  destruct (m s) as [[a|e] s'] eqn:E; simpl; [apply Hk | reflexivity].
Qed.

Lemma mfold_clock {A C} (g : A -> C -> @M L W A) l :
  (forall a c, @clock_free L W _ (g a c)) -> forall a, @clock_free L W _ (mfold g l a).
Proof.
  intros Hg. induction l as [|c l IH]; intros a; simpl.
  - apply ret_clock.
  - apply bind_clock; auto.
Qed.

End Frame.

Ltac head_of t :=
  match t with
  | ?f _ => head_of f
  | _ => t
  end.

(** One step of a proof that a computation is [preserves f] or
    [clock_free]. *)
Ltac frame_step :=
  match goal with
  | |- preserves _ (bind _ _) => apply bind_pres; [|intros ?]
  | |- preserves _ (ret _) => apply ret_pres
  | |- preserves _ (raise _) => apply raise_pres
  | |- preserves _ (gets _) => apply gets_pres
  | |- preserves _ (modify _) => apply modify_pres; intros []; reflexivity
  | |- preserves _ (layer_call _ _) =>
      apply layer_call_pres; [intros [] ? ?; reflexivity | intros [] ?; reflexivity]
  | |- preserves _ (mfold _ _ _) => apply mfold_pres; intros ? ?
  | |- clock_free (bind _ _) => apply bind_clock; [|intros ?]
  | |- clock_free (ret _) => apply ret_clock
  | |- clock_free (raise _) => apply raise_clock
  | |- clock_free (gets _) => apply gets_clock; intros [] ?; reflexivity
  | |- clock_free (modify _) => apply modify_clock; intros [] ?; reflexivity
  | |- clock_free (layer_call _ _) => apply layer_call_clock
  | |- clock_free (mfold _ _ _) => apply mfold_clock; intros ? ?
  | |- _ (if ?b then _ else _) => destruct b
  | |- _ (match ?x with _ => _ end) => destruct x
  | |- preserves _ ?m => let h := head_of m in progress (unfold h)
  | |- clock_free ?m => let h := head_of m in progress (unfold h)
  end.

Section FrameFacts.
Context {L W : Type} `{LayerStack L W}.

Lemma substep_clock_free i precip pet lc :
  @clock_free L W _ (substep i precip pet lc).
Proof. repeat frame_step. Qed.

Lemma substep_preserves_global_params i precip pet lc :
  @preserves L W _ _ global_params (substep i precip pet lc).
Proof. repeat frame_step. Qed.


Lemma set_clock_twice (s : dpLGAR L W) c c' :
  set_clock c (set_clock c' s) = set_clock c s.
Proof. destruct s; reflexivity. Qed.

Lemma set_clock_self (s : dpLGAR L W) : set_clock (clock s) s = s.
Proof. destruct s; reflexivity. Qed.


Lemma clock_free_shift {A} (m : @M L W A) : clock_free m -> clock_shift m m.
Proof. intros Hm s c. exists c. apply Hm. Qed.

Lemma bind_shift {A C} (m1 m2 : @M L W A) (k1 k2 : A -> @M L W C) :
  clock_shift m1 m2 -> (forall a, clock_shift (k1 a) (k2 a)) ->
  clock_shift (bind m1 k1) (bind m2 k2).
Proof.
  intros Hm Hk s c. destruct (Hm s c) as [c' E]. unfold bind. rewrite E.
  destruct (m1 s) as [[a|e] s']; simpl.
  - apply Hk.
  - exists c'. reflexivity.
Qed.

Lemma mfold_shift {A C} (g1 g2 : A -> C -> @M L W A) l :
  (forall a c, clock_shift (g1 a c) (g2 a c)) ->
  forall a, clock_shift (mfold g1 l a) (mfold g2 l a).
Proof.
  intros Hg. induction l as [|c l IH]; intros a; simpl.
  - apply clock_free_shift, ret_clock.
  - apply bind_shift; auto.
Qed.

Lemma sleep_shift (d1 d2 : Q) :
  clock_shift (modify (fun s : dpLGAR L W => set_clock (clock s + d1) s))
              (modify (fun s : dpLGAR L W => set_clock (clock s + d2) s)).
Proof.
  intros s c. exists (c + d2). unfold modify; simpl.
  rewrite !set_clock_twice. reflexivity.
Qed.

Lemma timestep_shift sleep1 sleep2 precip pet prev i :
  clock_shift (timestep sleep1 precip pet prev i)
              (timestep sleep2 precip pet prev i).
Proof.
  unfold timestep.
  apply bind_shift; [apply clock_free_shift; repeat frame_step|intros ev].
  apply bind_shift; [apply clock_free_shift; repeat frame_step|intros nsub].
  apply bind_shift.
  { apply clock_free_shift. apply mfold_clock. intros. apply substep_clock_free. }
  intros lc. apply bind_shift; [apply sleep_shift|intros _].
  apply clock_free_shift, ret_clock.
Qed.

Lemma forward_shift sleep1 sleep2 x :
  clock_shift (forward sleep1 x) (forward sleep2 x).
Proof.
  unfold forward.
  apply bind_shift; [apply clock_free_shift; repeat frame_step|intros precip].
  apply bind_shift; [apply clock_free_shift; repeat frame_step|intros pet].
  apply bind_shift; [apply clock_free_shift; repeat frame_step|intros sft].
  apply bind_shift; [apply clock_free_shift; repeat frame_step|intros _].
  apply bind_shift; [apply clock_free_shift; repeat frame_step|intros n].
  apply bind_shift.
  { apply mfold_shift. intros. apply timestep_shift. }
  intros _. apply clock_free_shift. repeat frame_step.
Qed.

End FrameFacts.


(** ** Execution lemmas *)

Lemma Qltb_true x y : Qltb x y = true <-> x < y.
Proof.
  unfold Qltb. rewrite negb_true_iff. split; intros Hx.
  - apply Qnot_le_lt. intros Hle. apply Qle_bool_iff in Hle. congruence.
  - destruct (Qle_bool y x) eqn:E; [|reflexivity].
    apply Qle_bool_iff in E. exfalso. apply (Qlt_not_le x y); assumption.
Qed.

Lemma Qltb_false x y : Qltb x y = false <-> y <= x.
Proof.
  unfold Qltb. rewrite negb_false_iff. apply Qle_bool_iff.
Qed.

Lemma ponding_spec pd pmax :
  ((pd < pmax) -> (ponding pd pmax).1.2 = 0 /\ (ponding pd pmax).1.1 = pd) /\
  ((pmax <= pd) -> (ponding pd pmax).1.2 = pd - pmax /\ (ponding pd pmax).1.1 = pmax).
Proof.
  unfold ponding. destruct (Qltb pd pmax) eqn:E; simpl.
  - apply Qltb_true in E. split; [auto|].
    intros Hle. exfalso. apply (Qlt_not_le pd pmax); assumption.
  - apply Qltb_false in E. split; [|auto].
    intros Hlt. exfalso. apply (Qlt_not_le pd pmax); assumption.
Qed.

(** Symbolic execution: split on the outcome of the next layer method,
    conditional or lookup. *)
Ltac run_step :=
  match goal with
  | |- context [ponding ?a ?b] => destruct (ponding a b) as [[? ?] ?]; simpl
  | |- context [match ?x !! ?i with Some _ => _ | None => _ end] =>
      destruct (x !! i) eqn:?; simpl
  | |- context [match ?e with inl _ => _ | inr _ => _ end] =>
      destruct e as [[? ?]|?]; simpl
  | |- context [if ?b then _ else _] => destruct b eqn:?; simpl
  end.

Ltac run_unfold :=
  unfold substep, substep_prelude, substep_after_prelude, wetting_branch,
    substep_tail, create_surficial_front_m, bind, gets, modify, ret, raise,
    layer_call, call_update_states, update_states; simpl.

Section Execution.
Context {L W : Type} `{LayerStack L W}.

Local Abbreviation St := (dpLGAR L W).

Lemma bind_err {A C} (m : @M L W A) (k : A -> @M L W C) s e :
  fst (m s) = Err e -> fst (bind m k s) = Err e.
Proof. unfold bind. destruct (m s) as [[a|e'] s']; simpl; congruence. Qed.

Lemma bind_ok_pres {B A C} (f : St -> B) (m : @M L W A) (k : A -> @M L W C) s r :
  preserves f m -> fst (bind m k s) = Ok r ->
  exists a s', fst (k a s') = Ok r /\ f s' = f s.
Proof.
  intros Hm E. unfold bind in E. specialize (Hm s).
  destruct (m s) as [[a|e] s'] eqn:Em; simpl in *; [|discriminate].
  exists a, s'. auto.
Qed.

(** A substep after its prelude always raises, and never
    [AttributeError]. *)
Lemma substep_after_prelude_raises i lc (p : prelude W) (s : St) :
  exists e, fst (substep_after_prelude i lc p s) = Err e /\ e <> AttributeError.
Proof.
  destruct s as [cf gp tl nwf wfd ev pw ro pc vr ck cl].
  run_unfold. repeat run_step.
  all: eexists; split; [reflexivity | discriminate].
Qed.

Lemma substep_raises i precip pet lc (s : St) :
  exists e, fst (substep i precip pet lc s) = Err e /\ e <> AttributeError.
Proof.
  unfold substep. unfold bind at 1.
  destruct (substep_prelude precip pet lc s) as [[p|e] s'] eqn:E.
  - apply substep_after_prelude_raises.
  - revert E. destruct s as [cf gp tl nwf wfd ev pw ro pc vr ck cl].
    run_unfold. repeat run_step; intros E; inversion E; subst.
    all: eexists; split; [reflexivity | discriminate].
Qed.

(** The prelude either raises from a layer method or yields the decision
    of [create_surficial_front] on the object as it was, and the ponded
    depth [precip_sub + self.ponded_water]. *)
Lemma substep_prelude_shape precip pet lc (s : St) :
  (exists n, fst (substep_prelude precip pet lc s) = Err (LayerException n)) \/
  (exists p s', substep_prelude precip pet lc s = (Ok p, s') /\
     create_front p =
       create_surficial_front s (previous_precip lc)
         (precip * subcycle_length_h (cfg s)) /\
     ponded_depth_sub p = precip * subcycle_length_h (cfg s) + ponded_water s).
Proof.
  destruct s as [cf gp tl nwf wfd ev pw ro pc vr ck cl].
  unfold substep_prelude, create_surficial_front_m, bind, gets, modify, ret,
    layer_call; simpl.
  repeat run_step.
  all: first [ left; eexists; reflexivity
             | right; do 2 eexists; split; [reflexivity|]; split; reflexivity ].
Qed.

Lemma forward_ok_inv sleep x (s : St) r :
  fst (forward sleep x s) = Ok r -> volrunoff_timestep_cm s = Some r.
Proof.
  intros E. unfold forward in E.
  apply (bind_ok_pres volrunoff_timestep_cm) in E as (a1 & s1 & E & P1); [|repeat frame_step].
  apply (bind_ok_pres volrunoff_timestep_cm) in E as (a2 & s2 & E & P2); [|repeat frame_step].
  apply (bind_ok_pres volrunoff_timestep_cm) in E as (a3 & s3 & E & P3); [|repeat frame_step].
  apply (bind_ok_pres volrunoff_timestep_cm) in E as (a4 & s4 & E & P4); [|repeat frame_step].
  apply (bind_ok_pres volrunoff_timestep_cm) in E as (a5 & s5 & E & P5); [|repeat frame_step].
  apply (bind_ok_pres volrunoff_timestep_cm) in E as (a6 & s6 & E & P6);
    [|apply mfold_pres; intros; repeat frame_step].
  unfold bind, gets in E; simpl in E.
  destruct (volrunoff_timestep_cm s6) eqn:V; simpl in E; [|discriminate].
  injection E as ->. congruence.
Qed.

Lemma forward_raises_in_loop sleep x (s : St) :
  (1 <= nsteps (cfg s))%nat -> (1 <= num_subcycles (cfg s))%nat ->
  exists e, fst (forward sleep x s) = Err e /\ e <> AttributeError.
Proof.
  intros Hn Hj. unfold forward, index2.
  destruct (x !! 0%nat) as [row|];
    [|eexists; split; [reflexivity|discriminate]].
  destruct (row !! 0%nat) as [precip|];
    [|eexists; split; [reflexivity|discriminate]].
  destruct (row !! 1%nat) as [pet|];
    [|eexists; split; [reflexivity|discriminate]].
  unfold bind at 1 2 3, ret at 1 2, gets at 1; simpl.
  assert (Hloop : forall s', cfg s' = cfg s ->
    exists e, fst (bind (gets (fun s0 => nsteps (cfg s0)))
                 (fun n => bind (mfold (timestep sleep precip pet) (seq 0 n) 0)
                   (fun _ => bind (gets volrunoff_timestep_cm)
                     (fun v => match v with Some r => ret r
                               | None => raise AttributeError end))) s')
              = Err e /\ e <> AttributeError).
  { intros s' Hc. unfold bind at 1, gets at 1; simpl. rewrite Hc.
    destruct (nsteps (cfg s)) as [|n] eqn:En; [lia|].
    simpl seq. simpl mfold.
    destruct (num_subcycles (cfg s)) as [|k] eqn:Ek; [lia|].
    edestruct (substep_raises 0 precip pet (mkLocals 0 0 0 (ending_volume s')))
      as (e & He & Hne).
    exists e. split; [|exact Hne].
    apply bind_err, bind_err. unfold timestep.
    unfold bind at 1, gets at 1; simpl. unfold bind at 1, gets at 1; simpl.
    rewrite Hc, Ek. simpl seq. simpl mfold.
    apply bind_err, bind_err. exact He. }
  destruct (sft_coupled (global_params s)).
  - unfold bind at 1, layer_call.
    destruct (frozen_factor_hydraulic_conductivity _) as [[[] l]|n]; simpl.
    + apply Hloop. destruct s; reflexivity.
    + eexists; split; [reflexivity|discriminate].
  - unfold bind at 1, ret. apply Hloop. reflexivity.
Qed.

Lemma timestep_idle sleep precip pet prev i (s : St) :
  num_subcycles (cfg s) = 0%nat ->
  timestep sleep precip pet prev i s = (Ok prev, set_clock (clock s + sleep i) s).
Proof.
  intros Hk. unfold timestep, bind, gets, modify, ret. rewrite Hk. reflexivity.
Qed.

Lemma timesteps_idle sleep precip pet :
  forall l prev (s : St), num_subcycles (cfg s) = 0%nat ->
  exists c, mfold (timestep sleep precip pet) l prev s = (Ok prev, set_clock c s).
Proof.
  induction l as [|i l IH]; intros prev s Hk; simpl.
  - exists (clock s). rewrite set_clock_self. reflexivity.
  - unfold bind at 1. rewrite timestep_idle by exact Hk.
    destruct (IH prev (set_clock (clock s + sleep i) s)) as [c Ec];
      [destruct s; exact Hk|].
    exists c. rewrite Ec, set_clock_twice. reflexivity.
Qed.

(** With no substep scheduled, and [frozen_factor_hydraulic_conductivity]
    returning when [sft_coupled] is set, [forward] on forcing
    [[precip, pet, ...], ...] reaches its return statement. *)
Lemma forward_idle_return sleep precip pet rest rows (s : St) :
  (nsteps (cfg s) = 0%nat \/ num_subcycles (cfg s) = 0%nat) ->
  (sft_coupled (global_params s) = true ->
     exists l, frozen_factor_hydraulic_conductivity (top_layer s) = inl (tt, l)) ->
  fst (forward sleep ((precip :: pet :: rest) :: rows) s) =
    match volrunoff_timestep_cm s with
    | Some r => Ok r | None => Err AttributeError end.
Proof.
  intros Hcase Hfz. unfold forward, index2. simpl.
  unfold bind at 1 2 3, ret at 1 2, gets at 1; simpl.
  assert (Hrest : forall s' : St,
    cfg s' = cfg s -> volrunoff_timestep_cm s' = volrunoff_timestep_cm s ->
    fst (bind (gets (fun s0 => nsteps (cfg s0)))
           (fun n => bind (mfold (timestep sleep precip pet) (seq 0 n) 0)
             (fun _ => bind (gets volrunoff_timestep_cm)
               (fun v => match v with Some r => ret r
                         | None => raise AttributeError end))) s')
    = match volrunoff_timestep_cm s with
      | Some r => Ok r | None => Err AttributeError end).
  { intros s' Hc Hv. unfold bind at 1, gets at 1; simpl. rewrite Hc.
    assert (Hloop : exists c, mfold (timestep sleep precip pet) (seq 0 (nsteps (cfg s))) 0 s'
                              = (Ok 0, set_clock c s')).
    { destruct Hcase as [Hn|Hk].
      - rewrite Hn. exists (clock s'). rewrite set_clock_self. reflexivity.
      - apply timesteps_idle. rewrite Hc. exact Hk. }
    destruct Hloop as [c Ec]. unfold bind at 1. rewrite Ec.
    unfold bind, gets. simpl.
    destruct s'; simpl in *. rewrite Hv.
    destruct (volrunoff_timestep_cm s); reflexivity. }
  destruct (sft_coupled (global_params s)) eqn:Es.
  - destruct (Hfz eq_refl) as [l El]. unfold bind at 1, layer_call.
    replace (top_layer (log_call CFrozenFactor s)) with (top_layer s)
      by (destruct s; reflexivity).
    rewrite El. apply Hrest; destruct s; reflexivity.
  - unfold bind at 1, ret. apply Hrest; reflexivity.
Qed.

End Execution.

(** ** Cumulative depths *)

Section Cumulative.
Variable t : list Q.

Lemma cum_fold_length c l : length (foldl (cum_step t) c l) = length c.
Proof.
  revert c. induction l as [|i l IH]; intros c; simpl; [reflexivity|].
  rewrite IH. apply length_insert.
Qed.

Lemma cum_fold_spec k c :
  (k < length c)%nat ->
  foldl (cum_step t) c (seq 1 k) !!! 0%nat = c !!! 0%nat /\
  (forall j, (1 <= j <= k)%nat ->
     foldl (cum_step t) c (seq 1 k) !!! j =
     foldl (cum_step t) c (seq 1 k) !!! (j - 1)%nat + t !!! j).
Proof.
  induction k as [|k IH]; intros Hk.
  - split; [reflexivity|]. intros j Hj. lia.
  - destruct IH as [IH0 IHj]; [lia|].
    rewrite seq_S, foldl_app. simpl.
    set (c1 := foldl (cum_step t) c (seq 1 k)).
    assert (Hlen : length c1 = length c) by apply cum_fold_length.
    unfold cum_step. replace (S k - 1)%nat with k by lia.
    split.
    + rewrite list_lookup_total_insert_ne by lia. exact IH0.
    + intros j Hj. destruct (decide (j = S k)) as [->|Hne].
      * rewrite list_lookup_total_insert_eq by lia.
        replace (S k - 1)%nat with k by lia.
        rewrite list_lookup_total_insert_ne by lia. reflexivity.
      * rewrite !list_lookup_total_insert_ne by lia. apply IHj. lia.
Qed.

End Cumulative.

Section Cumulative32.
Variable ltc : list F32.float32.



End Cumulative32.

Lemma Qsum_snoc l x : Qsum (l ++ [x]) == Qsum l + x.
Proof.
  induction l as [|y l IH]; simpl.
  - ring.
  - rewrite IH. ring.
Qed.

(** The arrays built by [initialize_config_parameters]. *)
Lemma gp_cum_spec (d : Cfg.data) (g : GlobalParams) :
  initialize_config_parameters d = Ok g ->
  let t := Cfg.layer_thickness d in
  let cum := cum_layer_thickness g in
  t <> [] /\ length cum = length t /\
  cum !!! 0%nat = t !!! 0%nat /\
  (forall j, (1 <= j < length t)%nat -> cum !!! j = cum !!! (j - 1)%nat + t !!! j) /\
  soil_depth_cm g = cum !!! (length cum - 1)%nat /\
  layer_thickness_cm g = t /\ num_layers g = length t.
Proof.
  unfold initialize_config_parameters.
  destruct (Cfg.layer_thickness d) as [|t0 ts] eqn:Et; simpl; [discriminate|].
  destruct (torch_max (Cfg.ponded_depth_max d)) as [pmax|e]; simpl; [|discriminate].
  intros E. injection E as <-. simpl.
  set (n := S (length ts)).
  set (c0 := t0 :: repeat 0 (length ts)).
  assert (Hc0 : length c0 = n) by (unfold c0, n; simpl;
                                   rewrite repeat_length; reflexivity).
  destruct (cum_fold_spec (t0 :: ts) (length ts) c0) as [H0 Hj]; [lia|].
  replace (length ts - 0)%nat with (length ts) by lia.
  split; [discriminate|].
  split; [rewrite cum_fold_length; exact Hc0|].
  split; [rewrite H0; reflexivity|].
  split; [intros j Hr; apply Hj; simpl in Hr; lia|].
  split; [rewrite cum_fold_length, Hc0; unfold n; simpl; f_equal; lia|].
  split; reflexivity.
Qed.

Lemma cum_prefix_sum (t cum : list Q) :
  length cum = length t ->
  cum !!! 0%nat = t !!! 0%nat ->
  (forall j, (1 <= j < length t)%nat -> cum !!! j = cum !!! (j - 1)%nat + t !!! j) ->
  forall j, (j < length t)%nat -> cum !!! j == Qsum (take (S j) t).
Proof.
  intros Hl H0 Hj j. induction j as [|j IH]; intros Hlt.
  - rewrite H0. destruct t as [|x t]; simpl in *; [lia|]. ring.
  - rewrite Hj by lia. replace (S j - 1)%nat with j by lia.
    rewrite IH by lia.
    rewrite (take_S_r t (S j) (t !!! S j))
      by (apply list_lookup_lookup_total_lt; lia).
    rewrite Qsum_snoc. reflexivity.
Qed.

(** * Claims *)

(** ** Configuration *)









(** [LGAR.num_layers] counts the zero pad at index 0. *)
Lemma lgar_num_layers_padded (d : Cfg.data) (g : GlobalParams) (l : LGAR.t) :
  initialize_config_parameters d = Ok g -> LGAR.init d = Ok l ->
  LGAR.num_layers l = S (num_layers g).
Proof.
  intros Hg Hl. destruct (gp_cum_spec d g Hg) as (_ & _ & _ & _ & _ & _ & Hn).
  rewrite Hn. revert Hl. unfold LGAR.init.
  destruct (LGAR.assert_pos _); simpl; [|discriminate].
  destruct (LGAR.assert_pos _); simpl; [|discriminate].
  intros E. injection E as <-. reflexivity.
Qed.

(** C9 (code defect): for the one-layer configuration [[10]] both
    constructions give [soil_depth_cm = 10], but [GlobalParams] has
    [num_layers = 1] while [LGAR] has [num_layers = 2]: [LGAR.__init__]
    takes [num_layers] from the zero-padded array. *)
Theorem num_layers_disagree :
  exists g l,
    initialize_config_parameters (Sample.data [10] [1]) = Ok g /\
    LGAR.init (Sample.data [10] [1]) = Ok l /\
    soil_depth_cm g = 10 /\ LGAR.soil_depth_cm l = 10 /\
    num_layers g = 1%nat /\ LGAR.num_layers l = 2%nat.
Proof.
  do 2 eexists. split; [reflexivity|]. split; [reflexivity|].
  repeat split; reflexivity.
Qed.

(** ** The simulation loop *)

(** C1 (counterexample): in a substep that reaches the movement of the
    fronts, [merge_wetting_fronts] is called twice but
    [wetting_fronts_cross_layer_boundary] only once. *)
Lemma movement_crosses_layer_boundary_once :
  calls (snd (forward Sample.no_sleep [[0; 0]] (Sample.state 1 1))) =
    [CFreeDrainage; CIsSaturated] ++ movement_calls /\
  count_occ call_eq_dec
    (calls (snd (forward Sample.no_sleep [[0; 0]] (Sample.state 1 1))))
    CCrossLayerBoundary = 1%nat /\
  count_occ call_eq_dec
    (calls (snd (forward Sample.no_sleep [[0; 0]] (Sample.state 1 1))))
    CMergeWettingFronts = 2%nat.
Proof. vm_compute. repeat split; reflexivity. Qed.

Section LoopClaims.
Context {L W : Type} `{LayerStack L W}.

Local Abbreviation St := (dpLGAR L W).

(** C1 (amended): in a substep that creates no surficial front and whose
    ponded depth is not positive, the layer stack sees, in this order,
    [move_wetting_fronts], [merge_wetting_fronts],
    [wetting_fronts_cross_layer_boundary], [merge_wetting_fronts],
    [wetting_front_cross_domain_boundary] (its flux accumulated into
    percolation), [fix_dry_over_wet_fronts], [update_psi], [calc_dzdt],
    [mass_balance] for the ending volume and [giuh_runoff]: the calls made
    are a prefix of this sequence, all of it when the substep gets as far
    as [self.update_states()]. *)
Theorem substep_movement_call_order i lc (p : prelude W) (s : St) :
  create_front p = false -> ponded_depth_sub p <= 0 ->
  exists tr,
    calls (snd (substep_after_prelude i lc p s)) = calls s ++ tr /\
    tr `prefix_of` movement_calls /\
    (fst (substep_after_prelude i lc p s) = Err TypeError -> tr = movement_calls).
Proof.
  intros Hc Hp. apply Qltb_false in Hp.
  unfold substep_after_prelude, wetting_branch, substep_tail.
  rewrite Hc, Hp. destruct s as [cf gp tl nwf wfd ev pw ro pc vr ck cl].
  unfold bind, gets, modify, ret, raise, layer_call, call_update_states,
    update_states; simpl.
  repeat run_step.
  all: rewrite <- ?app_assoc; simpl.
  all: first [ exists []; rewrite app_nil_r; split; [reflexivity|]
             | eexists; split; [reflexivity|] ].
  all: split; [eexists; reflexivity | try discriminate].
  all: reflexivity.
Qed.

(** C2: [create_surficial_front] leaves the object unchanged and is true
    exactly when the previous substep's precipitation is zero, the current
    one is positive and the ponded water is zero. *)
Theorem create_surficial_front_spec (s : St) (prev precip_sub : Q) :
  create_surficial_front_m prev precip_sub s =
    (Ok (create_surficial_front s prev precip_sub), s) /\
  (create_surficial_front s prev precip_sub = true <->
     prev == 0 /\ 0 < precip_sub /\ ponded_water s == 0).
Proof.
  split; [reflexivity|].
  unfold create_surficial_front.
  rewrite !andb_true_iff, !Qeq_bool_iff, Qltb_true. tauto.
Qed.

(** The two unimplemented branches raise at once, leaving the object as
    it was. *)
Lemma wetting_branch_unimplemented i lc (p : prelude W) (s : St) :
  (create_front p = true \/
   (create_front p = false /\ Qltb 0 (ponded_depth_sub p) = true)) ->
  substep_after_prelude i lc p s = (Err NotImplementedError, s).
Proof.
  unfold substep_after_prelude, wetting_branch.
  intros [Hc|[Hc Hp]]; rewrite Hc; [|rewrite Hp];
    [destruct (is_top_layer_saturated p)|]; reflexivity.
Qed.

(** C3 (amended): in a substep that creates no surficial front, a
    positive ponded depth raises [NotImplementedError] before any runoff
    is added (so precipitation exceeding the ponding capacity accumulates
    no runoff); a ponded depth [<= 0] gives [runoff_sub = 0] and keeps the
    ponded depth as [ponded_water_sub] when it is below
    [ponded_depth_max_cm], and otherwise [runoff_sub = ponded_depth -
    ponded_depth_max_cm] with [ponded_water_sub = ponded_depth_max_cm];
    [runoff_sub] is added to [runoff[i]], which keeps it even though the
    substep raises later. *)
Theorem no_front_runoff i lc (p : prelude W) (s : St) :
  create_front p = false ->
  (0 < ponded_depth_sub p ->
     substep_after_prelude i lc p s = (Err NotImplementedError, s)) /\
  (ponded_depth_sub p <= 0 -> (i < length (runoff s))%nat ->
     let pmax := ponded_depth_max_cm (global_params s) in
     let r := ponding (ponded_depth_sub p) pmax in
     (ponded_depth_sub p < pmax -> r.1.2 = 0 /\ r.1.1 = ponded_depth_sub p) /\
     (pmax <= ponded_depth_sub p ->
        r.1.2 = ponded_depth_sub p - pmax /\ r.1.1 = pmax) /\
     runoff (snd (substep_after_prelude i lc p s)) =
       <[i := runoff s !!! i + r.1.2]> (runoff s)).
Proof.
  intros Hc. split.
  - intros Hpos. apply Qltb_true in Hpos.
    apply wetting_branch_unimplemented. right. split; assumption.
  - intros Hle Hi. apply Qltb_false in Hle. cbv zeta.
    split; [apply ponding_spec|]. split; [apply ponding_spec|].
    destruct s as [cf gp tl nwf wfd ev pw ro pc vr ck cl]. simpl in Hi |- *.
    unfold substep_after_prelude, wetting_branch, substep_tail.
    rewrite Hc, Hle.
    unfold bind, gets, modify, ret, raise, layer_call, call_update_states,
      update_states; simpl.
    destruct (ponding _ _) as [[a b] c]; simpl.
    destruct (ro !! i) as [ri|] eqn:Ei.
    + rewrite (list_lookup_total_correct _ _ _ Ei).
      repeat run_step; reflexivity.
    + apply lookup_lt_is_Some_2 in Hi. destruct Hi as [? Hs]. congruence.
Qed.

(** C4: when a substep must create a surficial front (saturated top layer
    or not), or creates none but has a positive ponded depth, the branch
    raises [NotImplementedError]; the whole substep raises it, unless a
    layer method called before the branch raised first. *)
Theorem unimplemented_branches_raise i precip pet lc (s : St) :
  let ps := precip * subcycle_length_h (cfg s) in
  let csf := create_surficial_front s (previous_precip lc) ps in
  (csf = true \/ (csf = false /\ 0 < ps + ponded_water s)) ->
  (fst (substep i precip pet lc s) = Err NotImplementedError \/
   exists n, fst (substep i precip pet lc s) = Err (LayerException n)) /\
  (forall (p : prelude W) (s' : St),
     create_front p = csf -> ponded_depth_sub p = ps + ponded_water s ->
     substep_after_prelude i lc p s' = (Err NotImplementedError, s')).
Proof.
  cbv zeta. intros Hcase.
  assert (Hbranch : forall (p : prelude W) (s' : St),
     create_front p = create_surficial_front s (previous_precip lc)
                        (precip * subcycle_length_h (cfg s)) ->
     ponded_depth_sub p = precip * subcycle_length_h (cfg s) + ponded_water s ->
     substep_after_prelude i lc p s' = (Err NotImplementedError, s')).
  { intros p s' Hc Hp. apply wetting_branch_unimplemented.
    rewrite Hc, Hp. destruct Hcase as [Ht|[Hf Hpos]]; [left; exact Ht|].
    right. split; [exact Hf|]. apply Qltb_true. exact Hpos. }
  split; [|exact Hbranch].
  unfold substep.
  destruct (substep_prelude_shape precip pet lc s) as [[n En]|(p & s' & Ep & Hc & Hp)].
  - right. exists n. apply bind_err. exact En.
  - left. unfold bind at 1. rewrite Ep. rewrite (Hbranch p s' Hc Hp). reflexivity.
Qed.

(** C5 (amended): [update_states(i)] raises [NotImplementedError] and the
    argument-less call [self.update_states()] raises [TypeError]; no
    substep ever completes; when at least one substep runs, [forward]
    raises inside its loop, before its return statement; a forcing
    without [x[0][0]] or [x[0][1]] makes it raise [IndexError]; when no
    substep runs, on a forcing with [x[0][0]] and [x[0][1]] and with
    [frozen_factor_hydraulic_conductivity] returning (it is only called
    when [sft_coupled] is set), [forward] reaches its return statement and
    raises [AttributeError], since [volrunoff_timestep_cm] is never
    assigned; so [forward] never returns a value. *)
Theorem forward_never_returns :
  (forall i (s : St), update_states i s = (Err NotImplementedError, s)) /\
  (forall s : St, call_update_states [] s = (Err TypeError, s)) /\
  (forall i precip pet lc (s : St),
     exists e, fst (substep i precip pet lc s) = Err e /\ e <> AttributeError) /\
  (forall sleep x (s : St),
     (1 <= nsteps (cfg s))%nat -> (1 <= num_subcycles (cfg s))%nat ->
     exists e, fst (forward sleep x s) = Err e /\ e <> AttributeError) /\
  (forall sleep x (s : St),
     (x !! 0%nat = None \/ exists row, x !! 0%nat = Some row /\ (length row < 2)%nat) ->
     fst (forward sleep x s) = Err IndexError) /\
  (forall sleep precip pet rest rows (s : St),
     volrunoff_timestep_cm s = None ->
     (nsteps (cfg s) = 0%nat \/ num_subcycles (cfg s) = 0%nat) ->
     (sft_coupled (global_params s) = true ->
        exists l, frozen_factor_hydraulic_conductivity (top_layer s) = inl (tt, l)) ->
     fst (forward sleep ((precip :: pet :: rest) :: rows) s) = Err AttributeError) /\
  (forall sleep x (s : St),
     volrunoff_timestep_cm s = None -> forall r, fst (forward sleep x s) <> Ok r).
Proof.
  split; [intros; reflexivity|].
  split; [intros; reflexivity|].
  split; [apply substep_raises|].
  split; [intros; apply forward_raises_in_loop; assumption|].
  split.
  { intros sleep x s Hx. unfold forward, index2.
    destruct Hx as [E|(row & E & Hlen)]; rewrite E; [reflexivity|].
    destruct row as [|a [|b row]]; simpl in Hlen |- *; [reflexivity|reflexivity|lia]. }
  split.
  { intros sleep precip pet rest rows s Hv Hcase Hfz.
    rewrite (forward_idle_return sleep precip pet rest rows s Hcase Hfz), Hv.
    reflexivity. }
  intros sleep x s Hv r E. apply forward_ok_inv in E. congruence.
Qed.

(** C10: [forward] is deterministic.  Two runs from the same object on the
    same forcing give the same result or exception, the same [runoff] and
    [percolation] arrays, the same calls on the layer stack and the same
    final stack and [GlobalParams], whatever time the [time.sleep] calls
    take. *)
Theorem forward_deterministic (sleep1 sleep2 : nat -> Q) (x : list (list Q)) (s : St) :
  fst (forward sleep1 x s) = fst (forward sleep2 x s) /\
  runoff (snd (forward sleep1 x s)) = runoff (snd (forward sleep2 x s)) /\
  percolation (snd (forward sleep1 x s)) = percolation (snd (forward sleep2 x s)) /\
  calls (snd (forward sleep1 x s)) = calls (snd (forward sleep2 x s)) /\
  top_layer (snd (forward sleep1 x s)) = top_layer (snd (forward sleep2 x s)) /\
  global_params (snd (forward sleep1 x s)) = global_params (snd (forward sleep2 x s)).
Proof.
  destruct (forward_shift sleep1 sleep2 x s (clock s)) as [c E].
  rewrite set_clock_self in E. rewrite E.
  destruct (forward sleep1 x s) as [r s']. simpl.
  destruct s'. repeat split; reflexivity.
Qed.

End LoopClaims.

Lemma substep_movement_call_order_witness :
  create_front (mkPrelude 0 0 0 false false 0 tt) = false /\
  ponded_depth_sub (mkPrelude (W := unit) 0 0 0 false false 0 tt) <= 0 /\
  exists tr,
    calls (snd (substep_after_prelude 0 (mkLocals 0 0 0 0)
                  (mkPrelude 0 0 0 false false 0 tt) (Sample.state 1 1))) =
      calls (Sample.state 1 1) ++ tr /\
    tr `prefix_of` movement_calls.
Proof.
  assert (Hc : create_front (mkPrelude (W := unit) 0 0 0 false false 0 tt) = false)
    by reflexivity.
  assert (Hp : ponded_depth_sub (mkPrelude (W := unit) 0 0 0 false false 0 tt) <= 0)
    by (simpl; apply Qle_refl).
  split; [exact Hc|]. split; [exact Hp|].
  destruct (substep_movement_call_order 0 (mkLocals 0 0 0 0) _ (Sample.state 1 1) Hc Hp)
    as (tr & E & Hpre & _).
  exists tr. split; assumption.
Defined.


(** C3 (counterexample): with [ponded_depth_max_cm = 2] and a constant
    precipitation of 5 cm over a one-hour timestep of one substep,
    [forward] raises [NotImplementedError] and [runoff[0]] stays 0, not
    5 - 2. *)
Lemma saturation_runoff_not_accumulated :
  ponded_depth_max_cm (global_params (Sample.state 1 1)) = 2 /\
  fst (forward Sample.no_sleep [[5; 0]] (Sample.state 1 1)) = Err NotImplementedError /\
  runoff (snd (forward Sample.no_sleep [[5; 0]] (Sample.state 1 1))) = [0] /\
  ~ (runoff (snd (forward Sample.no_sleep [[5; 0]] (Sample.state 1 1))) !!! 0%nat == 5 - 2).
Proof.
  split; [reflexivity|]. split; [reflexivity|]. split; [reflexivity|].
  vm_compute. discriminate.
Qed.

Lemma no_front_runoff_witness :
  create_front (mkPrelude (W := unit) 0 0 (-3) false false 0 tt) = false /\
  runoff (snd (substep_after_prelude 0 (mkLocals 0 0 0 0)
                 (mkPrelude 0 0 (-3) false false 0 tt) (Sample.state 1 1))) =
    <[0%nat := 0 + (ponding (-3) 2).1.2]> [0].
Proof.
  assert (Hc : create_front (mkPrelude (W := unit) 0 0 (-3) false false 0 tt) = false)
    by reflexivity.
  split; [exact Hc|].
  assert (Hle : ponded_depth_sub (mkPrelude (W := unit) 0 0 (-3) false false 0 tt) <= 0)
    by (vm_compute; discriminate).
  assert (Hi : (0 < length (runoff (Sample.state 1 1)))%nat) by (simpl; lia).
  exact (proj2 (proj2 (proj2 (no_front_runoff 0 (mkLocals 0 0 0 0) _ (Sample.state 1 1) Hc) Hle Hi))).
Defined.

Lemma unimplemented_branches_raise_witness :
  create_surficial_front (Sample.state 1 1) 0 (5 * 1) = true /\
  fst (substep 0 5 0 (mkLocals 0 0 0 0) (Sample.state 1 1)) = Err NotImplementedError.
Proof.
  assert (Hcsf : create_surficial_front (Sample.state 1 1) 0 (5 * 1) = true)
    by reflexivity.
  split; [exact Hcsf|].
  destruct (unimplemented_branches_raise 0 5 0 (mkLocals 0 0 0 0) (Sample.state 1 1)
              (or_introl Hcsf)) as [[E|[n E]] _].
  - exact E.
  - vm_compute in E. discriminate E.
Defined.

(** C5 (counterexample): with [nsteps = 0] no substep runs and [forward]
    reaches its return statement, the only place that raises
    [AttributeError], without calling the layer stack. *)
Lemma forward_reaches_return_without_substeps :
  fst (forward Sample.no_sleep [[0; 0]] (Sample.state 0 1)) = Err AttributeError /\
  calls (snd (forward Sample.no_sleep [[0; 0]] (Sample.state 0 1))) = [].
Proof. split; reflexivity. Qed.

Lemma forward_never_returns_witness :
  (1 <= nsteps (cfg (Sample.state 1 1)))%nat /\
  (1 <= num_subcycles (cfg (Sample.state 1 1)))%nat /\
  volrunoff_timestep_cm (Sample.state 1 1) = None /\
  (exists e, fst (forward Sample.no_sleep [[0; 0]] (Sample.state 1 1)) = Err e /\
             e <> AttributeError) /\
  fst (forward Sample.no_sleep [[0; 0]] (Sample.state 1 1)) <> Ok 0 /\
  fst (forward Sample.no_sleep [[0]] (Sample.state 1 1)) = Err IndexError /\
  nsteps (cfg (Sample.state 0 1)) = 0%nat /\
  fst (forward Sample.no_sleep [[0; 0]] (Sample.state 0 1)) = Err AttributeError.
Proof.
  assert (H1 : (1 <= nsteps (cfg (Sample.state 1 1)))%nat) by (simpl; lia).
  assert (H2 : (1 <= num_subcycles (cfg (Sample.state 1 1)))%nat) by (simpl; lia).
  assert (H3 : volrunoff_timestep_cm (Sample.state 1 1) = None) by reflexivity.
  assert (H4 : [[0]] !! 0%nat = None \/
               exists row, [[0]] !! 0%nat = Some row /\ (length row < 2)%nat)
    by (right; exists [0]; split; [reflexivity|simpl; lia]).
  assert (H5 : nsteps (cfg (Sample.state 0 1)) = 0%nat \/
               num_subcycles (cfg (Sample.state 0 1)) = 0%nat) by (left; reflexivity).
  assert (H6 : sft_coupled (global_params (Sample.state 0 1)) = true ->
               exists l, frozen_factor_hydraulic_conductivity
                           (top_layer (Sample.state 0 1)) = inl (tt, l))
    by (intros E; discriminate E).
  destruct (@forward_never_returns unit unit Sample.unit_stack)
    as (_ & _ & _ & Hloop & Hidx & Hidle & Hret).
  split; [exact H1|]. split; [exact H2|]. split; [exact H3|].
  split; [exact (Hloop Sample.no_sleep [[0; 0]] _ H1 H2)|].
  split; [exact (Hret Sample.no_sleep [[0; 0]] _ H3 0)|].
  split; [exact (Hidx Sample.no_sleep [[0]] (Sample.state 1 1) H4)|].
  split; [reflexivity|].
  exact (Hidle Sample.no_sleep 0 0 [] [] (Sample.state 0 1) eq_refl H5 H6).
Defined.

(** * Further properties of the code *)

(** ** Configuration *)




(** The arrays built by [LGAR.__init__]. *)
Lemma lgar_cum_spec (d : Cfg.data) (l : LGAR.t) :
  LGAR.init d = Ok l ->
  let t := Cfg.layer_thickness d in
  LGAR.layer_thickness_cm l = 0 :: t /\
  length (LGAR.cum_layer_thickness l) = S (length t) /\
  (forall k, (k <= length t)%nat ->
     LGAR.cum_layer_thickness l !!! k == Qsum (take k t)) /\
  LGAR.soil_depth_cm l = LGAR.cum_layer_thickness l !!! length t.
Proof.
  unfold LGAR.init. cbv zeta.
  destruct (LGAR.assert_pos _); simpl; [|discriminate].
  destruct (LGAR.assert_pos _); simpl; [|discriminate].
  intros E. injection E as <-. simpl.
  set (t := Cfg.layer_thickness d).
  set (c := foldl (cum_step (0 :: t)) (0 :: repeat 0 (length t)) (seq 1 (length t))).
  assert (Hlen : length c = S (length t))
    by (unfold c; rewrite cum_fold_length; simpl; rewrite repeat_length; reflexivity).
  destruct (cum_fold_spec (0 :: t) (length t) (0 :: repeat 0 (length t))) as [H0 Hj];
    [simpl; rewrite repeat_length; lia|].
  fold c in H0, Hj.
  split; [reflexivity|]. split; [exact Hlen|]. split.
  - intros k. induction k as [|k IH]; intros Hk.
    + rewrite H0. reflexivity.
    + rewrite Hj by lia. replace (S k - 1)%nat with k by lia.
      rewrite IH by lia. simpl.
      rewrite (take_S_r t k (t !!! k)) by (apply list_lookup_lookup_total_lt; lia).
      rewrite Qsum_snoc. reflexivity.
  - rewrite Hlen. simpl. f_equal. lia.
Qed.


(** X3: when both constructions succeed on one configuration, [LGAR]'s
    cumulative depths are those of [GlobalParams] shifted by one index
    behind a 0, the soil depths agree, and [LGAR] counts one layer more. *)
Theorem lgar_gp_cum_agree (d : Cfg.data) (g : GlobalParams) (l : LGAR.t) :
  initialize_config_parameters d = Ok g -> LGAR.init d = Ok l ->
  LGAR.cum_layer_thickness l !!! 0%nat == 0 /\
  (forall k, (k < num_layers g)%nat ->
     LGAR.cum_layer_thickness l !!! S k == cum_layer_thickness g !!! k) /\
  LGAR.soil_depth_cm l == soil_depth_cm g /\
  LGAR.num_layers l = S (num_layers g).
Proof.
  intros Hg Hl.
  destruct (gp_cum_spec d g Hg) as (Hne & Hlen & H0 & Hj & Hdepth & _ & Hn).
  pose proof (cum_prefix_sum _ _ Hlen H0 Hj) as Hsum.
  destruct (lgar_cum_spec d l Hl) as (_ & _ & Hk & Hld).
  split; [exact (Hk 0%nat (Nat.le_0_l _))|].
  rewrite Hn. split.
  - intros k Hlt. rewrite Hk by lia. rewrite Hsum by lia. reflexivity.
  - split; [|rewrite <- Hn; apply (lgar_num_layers_padded d g l Hg Hl)].
    rewrite Hld, Hdepth, Hlen.
    destruct (Cfg.layer_thickness d) as [|t0 ts] eqn:Et; [congruence|].
    simpl length. replace (S (length ts) - 1)%nat with (length ts) by lia.
    rewrite Hk by (simpl; lia). rewrite Hsum by (simpl; lia).
    rewrite !take_ge by (simpl; lia). reflexivity.
Qed.

Lemma lgar_gp_cum_agree_witness :
  LGAR.soil_depth_cm (match LGAR.init (Sample.data [10; 20; 5] [1]) with
                      | Ok l => l | Err _ => LGAR.mkLGAR [] [] 0 0 0 0 0 false false end)
    == soil_depth_cm (Sample.gp [10; 20; 5]).
Proof.
  exact (proj1 (proj2 (proj2 (lgar_gp_cum_agree (Sample.data [10; 20; 5] [1])
    (Sample.gp [10; 20; 5]) _ eq_refl eq_refl)))).
Defined.

(** ** The simulation loop *)

Section ForwardExtra.
Context {L W : Type} `{LayerStack L W}.

Local Abbreviation St := (dpLGAR L W).

(** X6: [forward] never writes [ponded_water], [percolation],
    [volrunoff_timestep_cm], [num_wetting_fronts], [ending_volume] or
    [cfg]. *)
Theorem forward_frame sleep x (s : St) :
  let s' := snd (forward sleep x s) in
  ponded_water s' = ponded_water s /\ percolation s' = percolation s /\
  volrunoff_timestep_cm s' = volrunoff_timestep_cm s /\
  num_wetting_fronts s' = num_wetting_fronts s /\
  ending_volume s' = ending_volume s /\ cfg s' = cfg s.
Proof.
  cbv zeta.
  repeat split; match goal with
  | |- ?f (snd (forward sleep x s)) = ?f s =>
      assert (Hp : preserves f (forward sleep x)) by (repeat frame_step); apply Hp
  end.
Qed.

Lemma bind_err_eq {A C} (m : @M L W A) (k : A -> @M L W C) s e s' :
  m s = (Err e, s') -> bind m k s = (Err e, s').
Proof. intros E. unfold bind. rewrite E. reflexivity. Qed.

(** X7: with [sft_coupled] false and at least one substep scheduled,
    [forward] on forcing [[precip, pet, ...], ...] runs the first substep
    of the first timestep from fresh locals and stops with its exception,
    leaving the object as that substep left it. *)
Theorem forward_runs_first_substep sleep precip pet rest rows (s : St) :
  sft_coupled (global_params s) = false ->
  (1 <= nsteps (cfg s))%nat -> (1 <= num_subcycles (cfg s))%nat ->
  let r := substep 0 precip pet (mkLocals 0 0 0 (ending_volume s)) s in
  exists e, fst r = Err e /\
    forward sleep ((precip :: pet :: rest) :: rows) s = (Err e, snd r).
Proof.
  cbv zeta.
  intros Hsft Hn Hj. unfold forward, index2. simpl.
  unfold bind at 1 2 3 4, ret at 1 2 3, gets at 1 2; simpl. rewrite Hsft.
  unfold bind at 1, gets at 1.
  destruct (nsteps (cfg s)) as [|n] eqn:En; [lia|]. simpl seq. simpl mfold.
  destruct (substep_raises 0 precip pet (mkLocals 0 0 0 (ending_volume s)) s)
    as (e & He & _).
  destruct (substep 0 precip pet (mkLocals 0 0 0 (ending_volume s)) s)
    as [r s'] eqn:Es. simpl in He |- *. subst r. exists e. split; [reflexivity|].
  apply bind_err_eq, bind_err_eq. unfold timestep.
  unfold bind at 1, gets at 1. unfold bind at 1, gets at 1.
  destruct (num_subcycles (cfg s)) as [|k] eqn:Ek; [lia|]. simpl seq. simpl mfold.
  apply bind_err_eq, bind_err_eq. exact Es.
Qed.

(** X8: with [sft_coupled] false and no substep scheduled ([nsteps = 0]
    or [num_subcycles = 0]), [forward] changes nothing but the clock and
    reaches its return statement. *)
Theorem forward_without_substeps sleep precip pet rest rows (s : St) :
  sft_coupled (global_params s) = false ->
  (nsteps (cfg s) = 0%nat \/ num_subcycles (cfg s) = 0%nat) ->
  exists c, forward sleep ((precip :: pet :: rest) :: rows) s =
    (match volrunoff_timestep_cm s with
     | Some r => Ok r | None => Err AttributeError end, set_clock c s).
Proof.
  intros Hsft Hcase. unfold forward, index2. simpl.
  unfold bind at 1 2 3 4, ret at 1 2 3, gets at 1 2; simpl. rewrite Hsft.
  unfold bind at 1, gets at 1.
  assert (Hloop : exists c, mfold (timestep sleep precip pet) (seq 0 (nsteps (cfg s))) 0 s
                            = (Ok 0, set_clock c s)).
  { destruct Hcase as [Hn|Hk].
    - rewrite Hn. exists (clock s). rewrite set_clock_self. reflexivity.
    - apply timesteps_idle. exact Hk. }
  destruct Hloop as [c Ec]. exists c.
  unfold bind at 1. rewrite Ec. unfold bind, gets. destruct s as [? ? ? ? ? ? ? ? ? v ? ?]. simpl.
  destruct v; reflexivity.
Qed.

(** X9: a forcing [x] without [x[0][0]] or [x[0][1]] makes [forward]
    raise [IndexError] before it touches the object. *)
Theorem forward_bad_forcing sleep x (s : St) :
  (x !! 0%nat = None \/ exists row, x !! 0%nat = Some row /\ (length row < 2)%nat) ->
  forward sleep x s = (Err IndexError, s).
Proof.
  intros Hx. unfold forward, index2.
  destruct Hx as [E|(row & E & Hlen)]; rewrite E; [reflexivity|].
  destruct row as [|a [|b row]]; simpl in Hlen |- *; [reflexivity|reflexivity|lia].
Qed.


(** X10: the calls a substep makes on the layer stack are a prefix of
    [calc_wetting_front_free_drainage], [is_saturated], [calc_aet] (only
    when [pet_sub > 0]) and the movement calls. *)
Theorem substep_call_trace i precip pet lc (s : St) :
  exists tr, calls (snd (substep i precip pet lc s)) = calls s ++ tr /\
    tr `prefix_of` ([CFreeDrainage; CIsSaturated] ++
       (if Qltb 0 (pet * subcycle_length_h (cfg s)) then [CCalcAet] else []) ++
       movement_calls).
Proof.
  destruct s as [cf gp tl nwf wfd ev pw ro pc vr ck cl]. simpl.
  run_unfold. repeat run_step.
  all: rewrite <- ?app_assoc; simpl.
  all: first [ exists []; rewrite app_nil_r; split; [reflexivity|apply prefix_nil]
             | eexists; split; [reflexivity|eexists; reflexivity] ].
Qed.

(** X11: a substep that creates no front and has no positive ponded
    depth, on a [runoff] array long enough for its timestep, fails at the
    argument-less [self.update_states()] with [TypeError] unless a layer
    method raises: never with [IndexError] or [NotImplementedError]. *)
Theorem movement_branch_outcome i lc (p : prelude W) (s : St) :
  create_front p = false -> ponded_depth_sub p <= 0 -> (i < length (runoff s))%nat ->
  fst (substep_after_prelude i lc p s) = Err TypeError \/
  exists n, fst (substep_after_prelude i lc p s) = Err (LayerException n).
Proof.
  intros Hc Hp Hi. apply Qltb_false in Hp.
  unfold substep_after_prelude, wetting_branch, substep_tail.
  rewrite Hc, Hp. destruct s as [cf gp tl nwf wfd ev pw ro pc vr ck cl].
  simpl in Hi.
  unfold bind, gets, modify, ret, raise, layer_call, call_update_states,
    update_states; simpl.
  repeat run_step.
  all: first [ left; reflexivity | right; eexists; reflexivity
             | exfalso; apply lookup_lt_is_Some_2 in Hi; destruct Hi; congruence ].
Qed.

End ForwardExtra.

Lemma gp_sft_coupled_false (d : Cfg.data) (g : GlobalParams) :
  initialize_config_parameters d = Ok g -> sft_coupled g = false.
Proof.
  unfold initialize_config_parameters.
  destruct (_ !! 0%nat); simpl; [|discriminate].
  destruct (torch_max _); simpl; [|discriminate].
  intros E. injection E as <-. reflexivity.
Qed.

Section InitExtra.
Context {L W Soil : Type} `{LayerStack L W} `{LayerBuild L Soil}.

Local Abbreviation St := (dpLGAR L W).

Lemma dpLGAR_init_fields n_steps nsub h d c0 (s : St) :
  dpLGAR_init n_steps nsub h d c0 = Ok s ->
  cfg s = mkModels n_steps nsub h (Cfg.initial_psi d) /\
  initialize_config_parameters d = Ok (global_params s) /\
  sft_coupled (global_params s) = false /\ ponded_water s = 0 /\
  runoff s = repeat 0 n_steps /\ percolation s = repeat 0 n_steps /\
  volrunoff_timestep_cm s = None /\ calls s = [].
Proof.
  unfold dpLGAR_init, calc_num_wetting_fronts, calc_mass_balance, of_layer.
  destruct (read_soil_params d) as [soil|n]; simpl; [|discriminate].
  destruct (initialize_config_parameters d) as [g|e] eqn:Eg; simpl; [|discriminate].
  destruct (layer_new g soil) as [top|n]; simpl; [|discriminate].
  destruct (layer_calc_num_wetting_fronts top) as [[nwf top1]|n]; simpl; [|discriminate].
  destruct (mass_balance top1) as [[sv top2]|n]; simpl; [|discriminate].
  intros E. injection E as <-. simpl.
  repeat split; try reflexivity. apply (gp_sft_coupled_false d). exact Eg.
Qed.

(** X12: on an object built by [dpLGAR.__init__], [forward] never returns
    a value, and the calls it makes on the layer stack are those of at
    most one substep; in particular it never calls
    [frozen_factor_hydraulic_conductivity]. *)
Theorem fresh_forward_calls n_steps nsub h d c0 (s : St) sleep x :
  dpLGAR_init n_steps nsub h d c0 = Ok s ->
  (forall r, fst (forward sleep x s) <> Ok r) /\
  (calls (snd (forward sleep x s)) `prefix_of`
     [CFreeDrainage; CIsSaturated; CCalcAet] ++ movement_calls \/
   calls (snd (forward sleep x s)) `prefix_of`
     [CFreeDrainage; CIsSaturated] ++ movement_calls).
Proof.
  intros Hs.
  destruct (dpLGAR_init_fields _ _ _ _ _ _ Hs)
    as (Hcfg & _ & Hsft & _ & _ & _ & Hv & Hcl).
  split.
  { intros r E. apply forward_ok_inv in E. congruence. }
  assert (Hbad : forall x', forward sleep x' s = (Err IndexError, s) ->
            calls (snd (forward sleep x' s)) `prefix_of`
              [CFreeDrainage; CIsSaturated; CCalcAet] ++ movement_calls \/
            calls (snd (forward sleep x' s)) `prefix_of`
              [CFreeDrainage; CIsSaturated] ++ movement_calls).
  { intros x' E. rewrite E. simpl. rewrite Hcl. left. apply prefix_nil. }
  destruct x as [|row rows]; [apply Hbad, forward_bad_forcing; left; reflexivity|].
  destruct row as [|precip [|pet rest]];
    [apply Hbad, forward_bad_forcing; right; eexists; split; [reflexivity|simpl; lia]..|].
  destruct n_steps as [|n']; [|destruct nsub as [|k]].
  1,2: destruct (forward_without_substeps sleep precip pet rest rows s Hsft)
         as [c E]; [rewrite Hcfg; simpl; auto|];
       rewrite E; simpl; destruct s; simpl in Hcl |- *; rewrite Hcl;
       left; apply prefix_nil.
  destruct (forward_runs_first_substep sleep precip pet rest rows s Hsft)
    as (e & _ & E); [rewrite Hcfg; simpl; lia..|].
  rewrite E. simpl.
  destruct (substep_call_trace 0 precip pet (mkLocals 0 0 0 (ending_volume s)) s)
    as (tr & Etr & Hpre).
  rewrite Etr, Hcl. simpl.
  destruct (Qltb 0 _); [left|right]; exact Hpre.
Qed.


End InitExtra.


Lemma forward_runs_first_substep_witness :
  sft_coupled (global_params (Sample.state 1 1)) = false /\
  exists e, forward Sample.no_sleep [[0; 0]] (Sample.state 1 1) =
    (Err e, snd (substep 0 0 0 (mkLocals 0 0 0 0) (Sample.state 1 1))).
Proof.
  split; [reflexivity|].
  destruct (forward_runs_first_substep Sample.no_sleep 0 0 [] [] (Sample.state 1 1)
              eq_refl ltac:(simpl; lia) ltac:(simpl; lia)) as (e & _ & E).
  exists e. exact E.
Defined.

Lemma forward_without_substeps_witness :
  exists c, forward Sample.no_sleep [[0; 0]] (Sample.state 3 0) =
    (Err AttributeError, set_clock c (Sample.state 3 0)).
Proof.
  exact (forward_without_substeps Sample.no_sleep 0 0 [] [] (Sample.state 3 0)
           eq_refl (or_intror eq_refl)).
Defined.

Lemma forward_bad_forcing_witness :
  forward Sample.no_sleep [[4]] (Sample.state 1 1) = (Err IndexError, Sample.state 1 1).
Proof.
  apply forward_bad_forcing. right. exists [4]. split; [reflexivity|simpl; lia].
Defined.

Lemma movement_branch_outcome_witness :
  fst (substep_after_prelude 0 (mkLocals 0 0 0 0) (mkPrelude 0 0 0 false false 0 tt)
         (Sample.state 1 1)) = Err TypeError \/
  exists n, fst (substep_after_prelude 0 (mkLocals 0 0 0 0)
                   (mkPrelude 0 0 0 false false 0 tt) (Sample.state 1 1)) =
            Err (LayerException n).
Proof.
  apply movement_branch_outcome; [reflexivity|simpl; apply Qle_refl|simpl; lia].
Defined.

Lemma fresh_forward_calls_witness :
  dpLGAR_init 1 1 1 (Sample.data [10; 20] [1]) 0 = Ok Sample.fresh /\
  (calls (snd (forward Sample.no_sleep [[0; 3]] Sample.fresh)) `prefix_of`
     [CFreeDrainage; CIsSaturated; CCalcAet] ++ movement_calls \/
   calls (snd (forward Sample.no_sleep [[0; 3]] Sample.fresh)) `prefix_of`
     [CFreeDrainage; CIsSaturated] ++ movement_calls).
Proof.
  assert (Hs : dpLGAR_init 1 1 1 (Sample.data [10; 20] [1]) 0 = Ok Sample.fresh)
    by reflexivity.
  split; [exact Hs|].
  exact (proj2 (fresh_forward_calls _ _ _ _ _ _ Sample.no_sleep [[0; 3]] Hs)).
Defined.

